(** * DEVS legacy (SSRF demo): a shallow embedding of [server.js]

    The file follows [server.js] top to bottom: the JavaScript string
    primitives the handlers call, the process constants read from the
    environment, the internal debug service, and the public
    [/api/fetch] handler with its forbid-list, scheme test, outbound fetch
    and truncation.  Theorems about them come after the definitions. *)

From Stdlib Require Import ZArith Ascii String.
From stdpp Require Import gmap strings list.

Local Open Scope Z_scope.

(** ** JavaScript strings

    A JavaScript string is a sequence of UTF-16 code units; [length],
    [slice], [includes] and [trim] all count and compare code units. *)

Abbreviation codeunit := Z.
Abbreviation jsstring := (list Z).

Definition unit_of_ascii (c : ascii) : codeunit := Z.of_nat (nat_of_ascii c).

(** [js "abc"] is the JavaScript literal ['abc'] (ASCII text only). *)
Definition js (s : string) : jsstring :=
  map unit_of_ascii (list_ascii_of_string s).

Definition LF : codeunit := 10.

(** [s.length] *)
Definition jslength (s : jsstring) : Z := Z.of_nat (length s).

(** [s.slice(0, n)] for [0 <= n]. *)
Definition slice0 (n : Z) (s : jsstring) : jsstring := take (Z.to_nat n) s.

(** [s.startsWith(p)]: the code units of [p] open [s]. *)
Fixpoint startsWith (s p : jsstring) {struct p} : bool :=
  match p, s with
  | [], _ => true
  | _ :: _, [] => false
  | c :: p', d :: s' => (d =? c) && startsWith s' p'
  end.

(** [s.includes(p)]: [p] occurs in [s] at some index. *)
Fixpoint includes (s p : jsstring) : bool :=
  startsWith s p ||
  match s with
  | [] => false
  | _ :: s' => includes s' p
  end.

(** White space and line terminators, the code units [trim] strips:
    TAB, LF, VT, FF, CR, SP, NBSP, U+1680, U+2000..U+200A, U+2028, U+2029,
    U+202F, U+205F, U+3000 and U+FEFF. *)
Definition isTrimmable (c : codeunit) : bool :=
  ((9 <=? c) && (c <=? 13))
  || (c =? 32) || (c =? 160) || (c =? 5760)
  || ((8192 <=? c) && (c <=? 8202))
  || (c =? 8232) || (c =? 8233) || (c =? 8239) || (c =? 8287)
  || (c =? 12288) || (c =? 65279).

Fixpoint trimStart (s : jsstring) : jsstring :=
  match s with
  | [] => []
  | c :: s' => if isTrimmable c then trimStart s' else s
  end.

Definition trimEnd (s : jsstring) : jsstring := rev (trimStart (rev s)).

(** [s.trim()] *)
Definition trim (s : jsstring) : jsstring := trimEnd (trimStart s).

(** [!s] on a string: only the empty string is falsy. *)
Definition falsy (s : jsstring) : bool :=
  match s with [] => true | _ => false end.

(** The part of [toLowerCase] that is fixed for every engine and every
    Unicode version: on Basic Latin, [A-Z] go to [a-z] and nothing else
    moves. *)
Definition lowerLatin (c : codeunit) : codeunit :=
  if (65 <=? c) && (c <=? 90) then c + 32 else c.

Definition isLatin (c : codeunit) : bool := (0 <=? c) && (c <? 128).

Definition allLatin (s : jsstring) : bool := forallb isLatin s.

(** A [toLowerCase] is the engine's: its Unicode case tables are not part
    of the repository.  What the development relies on is its action on
    strings of Basic Latin. *)
Definition lowers_latin (toLowerCase : jsstring -> jsstring) : Prop :=
  forall s, allLatin s = true -> toLowerCase s = map lowerLatin s.

(** The smallest such function: it lowers Basic Latin and leaves every
    other code unit alone. *)
Definition latinToLowerCase (s : jsstring) : jsstring := map lowerLatin s.

(** Case-insensitive comparison of one code unit with a Basic Latin
    pattern character, as a regular expression with the [i] flag (and no
    [u] flag) does it: both sides are canonicalized by upper-casing, and a
    unit outside Basic Latin never canonicalizes into Basic Latin, so only
    the two Latin cases of a letter match it. *)
Definition canonicalize (c : codeunit) : codeunit :=
  if (97 <=? c) && (c <=? 122) then c - 32 else c.

Definition matches_i (pat c : codeunit) : bool :=
  canonicalize c =? canonicalize pat.

Fixpoint startsWith_i (s pat : jsstring) {struct pat} : bool :=
  match pat, s with
  | [], _ => true
  | _ :: _, [] => false
  | p :: pat', c :: s' => matches_i p c && startsWith_i s' pat'
  end.

(** [/^https?:\/\//i.test(s)]: the optional [s] gives two literal
    prefixes. *)
Definition test_http_scheme (s : jsstring) : bool :=
  startsWith_i s (js "http://") || startsWith_i s (js "https://").

(** ** Values that cross the HTTP boundary *)

(** The objects handed to [res.json]; fields are kept in the order the
    object literal lists them. *)
Inductive JsonValue :=
| JStr (s : jsstring)
| JNum (n : Z).

Definition JsonObject := list (string * JsonValue).

Inductive Payload :=
| JsonBody (o : JsonObject)                (* res.json(o) *)
| TextBody (mime : string) (s : jsstring). (* res.setHeader('Content-Type', mime); res.send(s) *)

Record HttpResponse := { statusCode : Z; payload : Payload }.

(** [res.status(code).json({ error: msg })] *)
Definition error_response (code : Z) (msg : string) : HttpResponse :=
  {| statusCode := code; payload := JsonBody [("error", JStr (js msg))] |}.

(** [req.query.url] as the query parser leaves it: absent, a string, or
    an array or object ([?url[]=a], [?url[k]=v], a repeated [url]). *)
Inductive QueryValue :=
| QUndefined
| QString (s : jsstring)
| QStructured.

(** [(v || '')]: an absent or empty value gives the empty string, any
    other value is kept; [None] stands for a kept value that is not a
    string. *)
Definition or_empty (v : QueryValue) : option jsstring :=
  match v with
  | QUndefined => Some []
  | QString s => Some s
  | QStructured => None
  end.

(** An [Error] object, with [String(e)] as [Error.prototype.toString]
    builds it. *)
Record JsError := { err_name : jsstring; err_message : jsstring }.

Definition String_of_error (e : JsError) : jsstring :=
  if falsy (err_name e) then err_message e
  else if falsy (err_message e) then err_name e
  else err_name e ++ js ": " ++ err_message e.

(** How an awaited promise settles. *)
Inductive Settled (A : Type) :=
| Fulfilled (a : A)
| Rejected (e : JsError).
Arguments Fulfilled {A} a.
Arguments Rejected {A} e.

(** The response object [fetch] resolves to: the upstream status, and
    how the promise of [r.text()] settles. *)
Record UpstreamResponse := { status : Z; text : Settled jsstring }.

Inductive RedirectMode := redirect_follow | redirect_manual | redirect_error.

(** The options object passed to [fetch]. *)
Record FetchOptions := { redirect : RedirectMode; timeout : Z }.

(** A [TypeError] raised outside any [try]: calling [trim] on a value
    that has none. *)
Inductive Uncaught := TypeError_trim_is_not_a_function.

(** A handler's run: it ends with a response, dies with an uncaught
    exception, or awaits an outbound [fetch] and goes on with what the
    promise settled to. *)
Inductive Action (R : Type) :=
| Respond (r : R)
| Throw (u : Uncaught)
| AwaitFetch (url : jsstring) (opts : FetchOptions)
             (k : Settled UpstreamResponse -> Action R).
Arguments Respond {R} r.
Arguments Throw {R} u.
Arguments AwaitFetch {R} url opts k.

(** The network as the handler sees it: what [fetch(url, opts)] settles
    to. *)
Definition World := jsstring -> FetchOptions -> Settled UpstreamResponse.

(** Running an action against a world: the outbound calls made, in
    order, and how the run ended. *)
Fixpoint run {R} (w : World) (a : Action R)
  : list (jsstring * FetchOptions) * (R + Uncaught) :=
  match a with
  | Respond r => ([], inl r)
  | Throw u => ([], inr u)
  | AwaitFetch url opts k =>
      let '(calls, out) := run w (k (w url opts)) in
      ((url, opts) :: calls, out)
  end.

Definition calls_of {R} (w : World) (a : Action R) := fst (run w a).
Definition outcome_of {R} (w : World) (a : Action R) := snd (run w a).

(** ** Process constants (lines 28-30) *)

(** [process.env.NAME || fallback], on the environment variables by
    name: an unset or empty variable gives the fallback. *)
Definition env_or {A} (env : gmap string jsstring) (name : string)
    (found : jsstring -> A) (fallback : A) : A :=
  match env !! name with
  | Some v => if falsy v then fallback else found v
  | None => fallback
  end.

(** A port is the number [3000] or [8000], or the text of [PORT]. *)
Inductive Port :=
| PortNumber (n : Z)
| PortText (s : jsstring).

Record Constants := {
  FLAG : jsstring;
  MAIN_PORT : Port;
  INTERNAL_PORT : Z
}.

Definition load_constants (env : gmap string jsstring) : Constants :=
  {| FLAG := env_or env "FLAG" id (js "FLAG{ssrf_decimal_wrap}");
     MAIN_PORT := env_or env "PORT" PortText (PortNumber 3000);
     INTERNAL_PORT := 8000 |}.

(** ** Internal debug service (lines 36-51) *)

(** [internalApp.get('/internal/flag', ...)] *)
Definition internal_flag (c : Constants) : HttpResponse :=
  {| statusCode := 200;
     payload := TextBody "text/plain" (js "admin-secret: " ++ FLAG c ++ [LF]) |}.

Inductive App := InternalApp | PublicApp.

(** One call of [listen(port, host, ...)]; no host means every local
    address. *)
Record Listener := {
  listen_app : App;
  listen_port : Port;
  listen_host : option jsstring
}.

(** The two [listen] calls of the file (lines 49 and 110). *)
Definition listeners (c : Constants) : list Listener :=
  [ {| listen_app := InternalApp;
       listen_port := PortNumber (INTERNAL_PORT c);
       listen_host := Some (js "127.0.0.1") |};
    {| listen_app := PublicApp;
       listen_port := MAIN_PORT c;
       listen_host := None |} ].

(** ** Public app: [/api/fetch] (lines 71-97) *)

(** Line 77: the forbid-list, on the lowered url. *)
Definition forbidlisted (lowered : jsstring) : bool :=
  includes lowered (js "localhost")
  || includes lowered (js "127.0.0.1")
  || includes lowered (js "::1").

(** Line 92: the marker is two line feeds and [...[truncated]]. *)
Definition truncation_marker : jsstring := [LF; LF] ++ js "...[truncated]".

Definition snippet (text : jsstring) : jsstring :=
  if jslength text >? 2000 then slice0 2000 text ++ truncation_marker else text.

(** Line 93: [res.json({ status: r.status, url: url, body: snippet })] *)
Definition fetched_response (st : Z) (url text : jsstring) : HttpResponse :=
  {| statusCode := 200;
     payload := JsonBody [("status", JNum st); ("url", JStr url);
                                ("body", JStr (snippet text))] |}.

(** Line 95 *)
Definition fetch_failed (e : JsError) : HttpResponse :=
  {| statusCode := 500;
     payload := JsonBody [("error", JStr (js "fetch failed"));
                                ("detail", JStr (String_of_error e))] |}.

(** Line 88: [{ redirect: 'follow', timeout: 5000 }] *)
Definition fetch_options : FetchOptions :=
  {| redirect := redirect_follow; timeout := 5000 |}.

Inductive Decision := Allowed | Forbidden | UnsupportedScheme.

Section Gateway.

(** [String.prototype.toLowerCase] of the engine. *)
Variable toLowerCase : jsstring -> jsstring.

(** Lines 76-84 read as a decision on the trimmed url. *)
Definition validate (url : jsstring) : Decision :=
  let lowered := toLowerCase url in
  if forbidlisted lowered then Forbidden
  else if negb (test_http_scheme url) then UnsupportedScheme
  else Allowed.

(** Lines 86-96: the [try] block and its [catch]. *)
Definition fetch_and_reply (url : jsstring) : Action HttpResponse :=
  AwaitFetch url fetch_options
    (fun settled =>
       match settled with
       | Rejected e => Respond (fetch_failed e)
       | Fulfilled r =>
           match text r with
           | Rejected e => Respond (fetch_failed e)
           | Fulfilled body => Respond (fetched_response (status r) url body)
           end
       end).

(** The handler, statement by statement. *)
Definition api_fetch (q : QueryValue) : Action HttpResponse :=
  match or_empty q with
  | None => Throw TypeError_trim_is_not_a_function
  | Some raw =>
      let url := trim raw in
      if falsy url then Respond (error_response 400 "url parameter required")
      else
        let lowered := toLowerCase url in
        if forbidlisted lowered
        then Respond (error_response 403 "local addresses are not allowed")
        else if negb (test_http_scheme url)
        then Respond (error_response 400 "only http and https allowed")
        else fetch_and_reply url
  end.

End Gateway.

(** [o.name] on a response object: the field's value, if there is one. *)
Fixpoint json_field (name : string) (o : JsonObject) : option JsonValue :=
  match o with
  | [] => None
  | (k, v) :: o' => if String.eqb k name then Some v else json_field name o'
  end.

(** What the [try] block of the handler ends with in a world: the
    upstream status and text, or the error its [catch] receives. *)
Definition settle_try (w : World) (url : jsstring) (opts : FetchOptions)
  : (Z * jsstring) + JsError :=
  match w url opts with
  | Rejected e => inr e
  | Fulfilled r =>
      match text r with
      | Rejected e => inr e
      | Fulfilled body => inl (status r, body)
      end
  end.

(** The fields of a JSON reply (none for a text reply). *)
Definition response_fields (r : HttpResponse) : JsonObject :=
  match payload r with
  | JsonBody o => o
  | TextBody _ _ => []
  end.

(** ** The running process

    A request as the two routers dispatch it: [GET /internal/flag] on the
    internal listener, [GET /api/fetch] on the public one. *)
Inductive Request :=
| GET_internal_flag
| GET_api_fetch (q : QueryValue).

(** What surrounds the process when a request arrives: the network, and
    the environment variables as they are by then. *)
Record Moment := { network : World; environment : gmap string jsstring }.

(** The process: its [const] bindings, and whether it is still
    running. *)
Record Process := { constants : Constants; alive : bool }.

(** A process that came up with the constants of [env]. *)
Definition running (env : gmap string jsstring) : Process :=
  {| constants := load_constants env; alive := true |}.

(** What a client gets: a reply, nothing because the handler died with
    an uncaught exception, or a refused connection because the process
    is gone. *)
Inductive Served :=
| Replied (r : HttpResponse)
| Died (u : Uncaught)
| Refused.

(** Serving one request.  No handler assigns to a binding or reads
    [process.env].  The rejected promise of an [async] handler is caught
    by nobody: the unhandled rejection ends the process, and both
    listeners with it. *)
Definition serve (toLowerCase : jsstring -> jsstring) (m : Moment)
    (p : Process) (r : Request) : Process * Served :=
  if alive p then
    match r with
    | GET_internal_flag => (p, Replied (internal_flag (constants p)))
    | GET_api_fetch q =>
        match outcome_of (network m) (api_fetch toLowerCase q) with
        | inl reply => (p, Replied reply)
        | inr u => ({| constants := constants p; alive := false |}, Died u)
        end
    end
  else (p, Refused).

(** Serving requests one after the other, each at its moment. *)
Fixpoint serve_all (toLowerCase : jsstring -> jsstring) (p : Process)
    (reqs : list (Moment * Request)) : Process * list Served :=
  match reqs with
  | [] => (p, [])
  | (m, r) :: reqs' =>
      let '(p', served) := serve toLowerCase m p r in
      let '(p'', rest) := serve_all toLowerCase p' reqs' in
      (p'', served :: rest)
  end.

(** The request that kills the process: [/api/fetch] with an array or
    object as [url]. *)
Definition is_fatal (r : Request) : bool :=
  match r with
  | GET_api_fetch QStructured => true
  | _ => false
  end.

(** ** Errors of the fetch library

    Equality of strings, code unit by code unit. *)
Fixpoint jsstring_eqb (a b : jsstring) : bool :=
  match a, b with
  | [], [] => true
  | c :: a', d :: b' => (c =? d) && jsstring_eqb a' b'
  | _, _ => false
  end.

(** [e.name === 'FetchError']: the fetch library reports its
    operational failures (a request that could not be made or finished,
    a timeout) as errors of this name; an error of another name, such as
    the [TypeError] for a url it cannot parse, is not one of them. *)
Definition is_FetchError (e : JsError) : bool :=
  jsstring_eqb (err_name e) (js "FetchError").

(** ** Numeric spellings of an IPv4 host

    The characters of an IPv4 address written in decimal, octal or
    hexadecimal, dotted or as one number: digits, the hex letters in
    either case, the [x] of the [0x] prefix, and the dot. *)
Definition isNumericHostUnit (c : codeunit) : bool :=
  ((48 <=? c) && (c <=? 57))
  || ((97 <=? c) && (c <=? 102))
  || ((65 <=? c) && (c <=? 70))
  || (c =? 120) || (c =? 88) || (c =? 46).

Definition numeric_host (host : jsstring) : bool :=
  negb (falsy host) && forallb isNumericHostUnit host.

(** What may follow the host in a url: nothing, or a port, path, query
    or fragment, opened by [:], [/], [?] or [#]. *)
Definition after_host (rest : jsstring) : bool :=
  match rest with
  | [] => true
  | d :: _ => (d =? 58) || (d =? 47) || (d =? 63) || (d =? 35)
  end.

(** [http://] or [https://] in any letter case. *)
Definition http_prefix (p : jsstring) : Prop :=
  map lowerLatin p = js "http://" \/ map lowerLatin p = js "https://".

(** ** The internal service seen from the public handler

    In a world [w], fetching [url] reaches [GET /internal/flag] of the
    process whose constants are [c]: the upstream reply is that
    handler's status and text. *)
Definition reaches_internal_flag (w : World) (c : Constants)
    (url : jsstring) : Prop :=
  exists page,
    payload (internal_flag c) = TextBody "text/plain" page
    /\ w url fetch_options
       = Fulfilled {| status := statusCode (internal_flag c);
                      text := Fulfilled page |}.

(** ** Sample worlds *)

(** Every host answers 200 with 2500 letters [a]. *)
Definition world_of_long_pages : World :=
  fun _ _ => Fulfilled {| status := 200; text := Fulfilled (replicate 2500 97) |}.

(** Every host answers 404 with a short page. *)
Definition world_of_missing_pages : World :=
  fun _ _ => Fulfilled {| status := 404; text := Fulfilled (js "Not Found") |}.

(** No host can be reached: [fetch] rejects. *)
Definition world_unreachable : World :=
  fun _ _ => Rejected {| err_name := js "FetchError";
                         err_message := js "connect ECONNREFUSED" |}.

(** Every url reaches [GET /internal/flag] of the process with
    constants [c]. *)
Definition world_of_internal_flag (c : Constants) : World :=
  fun _ _ =>
    Fulfilled {| status := 200;
                 text := Fulfilled (js "admin-secret: " ++ FLAG c ++ [LF]) |}.

(** A moment at which no host can be reached and [FLAG] has been
    changed in the environment. *)
Definition late_moment : Moment :=
  {| network := world_unreachable;
     environment := <["FLAG" := js "FLAG{changed}"]> ∅ |}.

(** [fetch] cannot parse the url and rejects before any request. *)
Definition world_of_invalid_urls : World :=
  fun _ _ => Rejected {| err_name := js "TypeError";
                         err_message := js "Invalid URL" |}.

(** ** Facts about the string primitives *)

(** [lit] occurs in [s]: some index of [s] starts a copy of [lit]. *)
Definition occurs (lit s : jsstring) : Prop :=
  exists before after, s = before ++ lit ++ after.

Lemma startsWith_spec (s p : jsstring) :
  startsWith s p = true <-> exists rest, s = p ++ rest.
Proof.
  revert s; induction p as [|c p IH]; intros s; simpl.
  - split; [intros _; exists s; reflexivity | reflexivity].
  - destruct s as [|d s]; simpl.
    + split; [discriminate | intros [rest H]; discriminate].
    + rewrite andb_true_iff, Z.eqb_eq, IH. split.
      * intros [-> [rest ->]]. exists rest. reflexivity.
      * intros [rest H]. injection H as -> ->. split; [reflexivity | eauto].
Qed.

Lemma includes_spec (s lit : jsstring) :
  includes s lit = true <-> occurs lit s.
Proof.
  unfold occurs. induction s as [|d s IH].
  - simpl. rewrite orb_false_r, startsWith_spec. split.
    + intros [rest ->]. exists [], rest. reflexivity.
    + intros ([|x before] & after & H).
      * exists after. exact H.
      * discriminate.
  - cbn [includes]. rewrite orb_true_iff, startsWith_spec, IH. split.
    + intros [[rest ->] | (before & after & ->)].
      * exists [], rest. reflexivity.
      * exists (d :: before), after. reflexivity.
    + intros ([|x before] & after & H).
      * left. exists after. exact H.
      * right. injection H as -> ->. eauto.
Qed.

Lemma includes_false_spec (s lit : jsstring) :
  includes s lit = false <-> ~ occurs lit s.
Proof.
  rewrite <- includes_spec. destruct (includes s lit); split; congruence.
Qed.

(** A separator that is not part of [lit] splits the search. *)
Lemma occurs_across_separator (lit x y : jsstring) (c : codeunit) :
  c ∉ lit -> occurs lit (x ++ c :: y) -> occurs lit x \/ occurs lit y.
Proof.
  intros Hc (a & b & H).
  symmetry in H. apply app_eq_app in H as [l [[-> H] | [-> H]]].
  - destruct l as [|c' l]; simpl in H.
    + destruct lit as [|h lit]; simpl in H.
      * left. exists x, []. rewrite app_nil_r. reflexivity.
      * injection H as -> _. exfalso. apply Hc. left.
    + injection H as -> ->. right. exists l, b. reflexivity.
  - apply app_eq_app in H as [l' [[-> H] | [-> H]]].
    + destruct l' as [|c' l']; simpl in H.
      * left. exists a, []. rewrite !app_nil_r. reflexivity.
      * injection H as -> _. exfalso. apply Hc.
        apply elem_of_app. right. left.
    + left. exists a, l'. reflexivity.
Qed.

(** A literal cannot start inside a stretch that lacks its first unit. *)
Lemma occurs_after_foreign (h : codeunit) (lit x y : jsstring) :
  h ∉ x -> occurs (h :: lit) (x ++ y) -> occurs (h :: lit) y.
Proof.
  intros Hh (a & b & H).
  symmetry in H. apply app_eq_app in H as [l [[-> H] | [-> H]]].
  - exists l, b. exact H.
  - destruct l as [|c l]; simpl in H.
    + exists [], b. symmetry. exact H.
    + injection H as -> _. exfalso. apply Hh.
      apply elem_of_app. right. left.
Qed.

Lemma occurs_suffix (lit x y : jsstring) :
  occurs lit y -> occurs lit (x ++ y).
Proof.
  intros (a & b & ->). exists (x ++ a), b. rewrite <- app_assoc. reflexivity.
Qed.


(** *** [trim] *)

Lemma trimStart_blank (s : jsstring) :
  forallb isTrimmable s = true -> trimStart s = [].
Proof.
  induction s as [|c s IH]; simpl; [reflexivity|].
  intros [Hc Hs]%andb_true_iff. rewrite Hc. auto.
Qed.


Lemma trimStart_keeps (a rest : jsstring) (c : codeunit) :
  isTrimmable c = false ->
  trimStart (a ++ c :: rest) = trimStart a ++ c :: rest.
Proof.
  intros Hc. induction a as [|d a IH]; simpl.
  - rewrite Hc. reflexivity.
  - destruct (isTrimmable d); [exact IH | reflexivity].
Qed.

Lemma trimEnd_keeps (a rest : jsstring) (c : codeunit) :
  isTrimmable c = false ->
  trimEnd (a ++ c :: rest) = a ++ c :: trimEnd rest.
Proof.
  intros Hc. unfold trimEnd.
  rewrite rev_app_distr. simpl. rewrite <- app_assoc. simpl.
  rewrite trimStart_keeps by exact Hc.
  rewrite rev_app_distr. simpl. rewrite rev_involutive, <- app_assoc.
  reflexivity.
Qed.

Lemma forallb_rev {A} (f : A -> bool) (l : list A) :
  forallb f (rev l) = forallb f l.
Proof.
  induction l as [|x l IH]; simpl; [reflexivity|].
  rewrite forallb_app, IH. simpl. rewrite andb_true_r, andb_comm. reflexivity.
Qed.

(** A parameter made of white space only trims to the empty string, and
    only such a parameter does. *)
Lemma trim_blank (s : jsstring) :
  forallb isTrimmable s = true <-> trim s = [].
Proof.
  unfold trim, trimEnd. split.
  - intros H. rewrite (trimStart_blank s H). reflexivity.
  - intros H.
    destruct (forallb isTrimmable s) eqn:E; [reflexivity|exfalso].
    assert (exists a c rest, s = a ++ c :: rest /\ isTrimmable c = false
                             /\ forallb isTrimmable rest = true)
      as (a & c & rest & -> & Hc & Hrest).
    { clear H. induction s as [|d s IH] using rev_ind; [discriminate|].
      rewrite forallb_app in E. simpl in E. rewrite andb_true_r in E.
      destruct (isTrimmable d) eqn:Ed.
      - rewrite andb_true_r in E. destruct (IH E) as (a & c & rest & -> & Hc & Hr).
        exists a, c, (rest ++ [d]). rewrite <- app_assoc. simpl.
        split; [reflexivity|]. split; [exact Hc|].
        rewrite forallb_app, Hr. simpl. rewrite Ed. reflexivity.
      - exists s, d, []. auto. }
    rewrite trimStart_keeps in H by exact Hc.
    rewrite rev_app_distr in H. simpl in H. rewrite <- app_assoc in H. simpl in H.
    rewrite trimStart_keeps in H by exact Hc.
    apply (f_equal (@length _)) in H.
    rewrite length_rev, length_app in H. simpl in H. lia.
Qed.

(** A literal whose first and last units are not white space survives
    trimming. *)
Lemma occurs_trim (f l : codeunit) (mid s : jsstring) :
  isTrimmable f = false -> isTrimmable l = false ->
  occurs (f :: mid ++ [l]) s -> occurs (f :: mid ++ [l]) (trim s).
Proof.
  intros Hf Hl (a & b & ->). unfold trim.
  change (a ++ (f :: mid ++ [l]) ++ b) with (a ++ f :: ((mid ++ [l]) ++ b)).
  rewrite trimStart_keeps by exact Hf.
  replace (trimStart a ++ f :: (mid ++ [l]) ++ b)
    with ((trimStart a ++ f :: mid) ++ l :: b)
    by (rewrite <- !app_assoc; reflexivity).
  rewrite trimEnd_keeps by exact Hl.
  exists (trimStart a), (trimEnd b). simpl. rewrite <- !app_assoc. reflexivity.
Qed.

(** *** Lowering Basic Latin *)

Lemma isTrimmable_lowerLatin (c : codeunit) :
  isTrimmable (lowerLatin c) = isTrimmable c.
Proof.
  unfold lowerLatin.
  destruct ((65 <=? c) && (c <=? 90)) eqn:E; [|reflexivity].
  apply andb_true_iff in E as [E1%Z.leb_le E2%Z.leb_le].
  assert (forall d, 33 <= d <= 159 -> isTrimmable d = false) as Hmid.
  { intros d Hd. unfold isTrimmable.
    rewrite (proj2 (Z.leb_gt d 13)) by lia.
    rewrite (proj2 (Z.leb_gt 8192 d)) by lia.
    rewrite !(proj2 (Z.eqb_neq d _)) by lia.
    rewrite andb_false_r. reflexivity. }
  rewrite !Hmid by lia. reflexivity.
Qed.

Lemma trimStart_lowerLatin (s : jsstring) :
  trimStart (map lowerLatin s) = map lowerLatin (trimStart s).
Proof.
  induction s as [|c s IH]; simpl; [reflexivity|].
  rewrite isTrimmable_lowerLatin. destruct (isTrimmable c); [exact IH | reflexivity].
Qed.

Lemma trim_lowerLatin (s : jsstring) :
  trim (map lowerLatin s) = map lowerLatin (trim s).
Proof.
  unfold trim, trimEnd.
  rewrite trimStart_lowerLatin, <- map_rev, trimStart_lowerLatin, map_rev.
  reflexivity.
Qed.

Lemma allLatin_trimStart (s : jsstring) :
  allLatin s = true -> allLatin (trimStart s) = true.
Proof.
  unfold allLatin. induction s as [|c s IH]; simpl; [reflexivity|].
  intros H. destruct (isTrimmable c); [|exact H].
  apply andb_true_iff in H as [_ H]. auto.
Qed.

Lemma allLatin_trim (s : jsstring) :
  allLatin s = true -> allLatin (trim s) = true.
Proof.
  intros H. unfold trim, trimEnd, allLatin.
  rewrite forallb_rev. apply allLatin_trimStart.
  unfold allLatin. rewrite forallb_rev. apply allLatin_trimStart. exact H.
Qed.

(** Every letter case of a Latin pattern character matches it under the
    [i] flag. *)
Lemma matches_i_lowerLatin (c : codeunit) : matches_i (lowerLatin c) c = true.
Proof.
  unfold matches_i, canonicalize, lowerLatin. apply Z.eqb_eq.
  destruct (Z.leb_spec 65 c), (Z.leb_spec c 90), (Z.leb_spec 97 c),
    (Z.leb_spec c 122); simpl;
    repeat match goal with
           | |- context [?a <=? ?b] => destruct (Z.leb_spec a b); simpl
           end; lia.
Qed.

Lemma startsWith_i_lowered (s rest : jsstring) :
  startsWith_i (s ++ rest) (map lowerLatin s) = true.
Proof.
  induction s as [|c s IH]; simpl; [reflexivity|].
  rewrite matches_i_lowerLatin. exact IH.
Qed.

(** ** The handler, read through the decision *)

Lemma api_fetch_by_decision (tl : jsstring -> jsstring) (raw : jsstring) :
  api_fetch tl (QString raw) =
    let url := trim raw in
    if falsy url then Respond (error_response 400 "url parameter required")
    else match validate tl url with
         | Forbidden => Respond (error_response 403 "local addresses are not allowed")
         | UnsupportedScheme => Respond (error_response 400 "only http and https allowed")
         | Allowed => fetch_and_reply url
         end.
Proof.
  unfold api_fetch, validate. simpl.
  destruct (falsy (trim raw)); [reflexivity|].
  destruct (forbidlisted (tl (trim raw))); [reflexivity|].
  destruct (test_http_scheme (trim raw)); reflexivity.
Qed.

Lemma api_fetch_undefined (tl : jsstring -> jsstring) :
  api_fetch tl QUndefined = Respond (error_response 400 "url parameter required").
Proof. reflexivity. Qed.

Lemma test_http_scheme_nonempty (url : jsstring) :
  test_http_scheme url = true -> falsy url = false.
Proof. destruct url; [discriminate | reflexivity]. Qed.

Lemma validate_allowed_nonempty (tl : jsstring -> jsstring) (url : jsstring) :
  validate tl url = Allowed -> falsy url = false.
Proof.
  unfold validate. destruct (forbidlisted (tl url)); [discriminate|].
  destruct (test_http_scheme url) eqn:E; [|discriminate].
  intros _. apply test_http_scheme_nonempty, E.
Qed.

Lemma run_fetch_and_reply (w : World) (url : jsstring) :
  run w (fetch_and_reply url) =
    ([(url, fetch_options)],
     inl match settle_try w url fetch_options with
         | inl (st, body) => fetched_response st url body
         | inr e => fetch_failed e
         end).
Proof.
  unfold fetch_and_reply, settle_try, fetch_options. simpl.
  destruct (w url _) as [r|e]; [|reflexivity].
  destruct (text r); reflexivity.
Qed.

(** ** Truncation of the fetched body (line 92) *)

Lemma truncation_marker_length : jslength truncation_marker = 16.
Proof. reflexivity. Qed.

Lemma snippet_long (body : jsstring) :
  2000 < jslength body ->
  snippet body = take 2000 body ++ truncation_marker.
Proof.
  intros H. unfold snippet, slice0.
  destruct (Z.gtb_spec (jslength body) 2000); [reflexivity | lia].
Qed.

Lemma snippet_short (body : jsstring) :
  jslength body <= 2000 -> snippet body = body.
Proof.
  intros H. unfold snippet.
  destruct (Z.gtb_spec (jslength body) 2000); [lia | reflexivity].
Qed.

Lemma snippet_length (body : jsstring) :
  jslength (snippet body) = if jslength body >? 2000 then 2016 else jslength body.
Proof.
  unfold snippet, slice0.
  destruct (Z.gtb_spec (jslength body) 2000) as [H|H]; [|reflexivity].
  unfold jslength in *. rewrite length_app, length_take.
  change (length truncation_marker) with 16%nat. lia.
Qed.

(** C4.  A fetched body longer than 2000 code units is returned as its
    first 2000 code units followed by the fixed marker; a body of at most
    2000 is returned as it is.  So the returned body is never longer than
    2000 plus the marker: a body of 2500 gives 2000 plus the marker, a
    body of 1500 comes back unchanged.  The body field of the success
    reply is this snippet. *)
Theorem snippet_truncates_at_2000 (body : jsstring) :
  (2000 < jslength body ->
     snippet body = take 2000 body ++ truncation_marker
     /\ jslength (take 2000 body) = 2000) /\
  (jslength body <= 2000 -> snippet body = body) /\
  jslength (snippet body) <= 2000 + jslength truncation_marker /\
  (jslength body = 2500 ->
     jslength (snippet body) = 2000 + jslength truncation_marker) /\
  (jslength body = 1500 -> snippet body = body) /\
  (forall st url,
     json_field "body" (response_fields (fetched_response st url body))
     = Some (JStr (snippet body))).
Proof.
  repeat split.
  - apply snippet_long. assumption.
  - unfold jslength in *. rewrite length_take. lia.
  - apply snippet_short.
  - rewrite snippet_length, truncation_marker_length.
    destruct (Z.gtb_spec (jslength body) 2000); lia.
  - intros H. rewrite snippet_length, truncation_marker_length, H. reflexivity.
  - intros H. apply snippet_short. lia.
Qed.

Lemma snippet_truncates_at_2000_witness :
  snippet (replicate 2500 97) = take 2000 (replicate 2500 97) ++ truncation_marker
  /\ jslength (snippet (replicate 2500 97)) = 2016
  /\ snippet (replicate 1500 97) = replicate 1500 97.
Proof.
  destruct (snippet_truncates_at_2000 (replicate 2500 97))
    as (Hlong & _ & _ & H2500 & _).
  destruct (snippet_truncates_at_2000 (replicate 1500 97))
    as (_ & Hshort & _ & _ & H1500 & _).
  split; [apply Hlong; vm_compute; reflexivity|].
  split; [apply H2500; vm_compute; reflexivity|].
  apply H1500. vm_compute. reflexivity.
Defined.

(** ** The shape of the success reply (line 93) *)

(** C5, as the code stands.  Every reply of [/api/fetch] with status 200
    is the object [{status, url, body}], in that order and with no
    [truncated] field: [status] is the upstream status, [url] the trimmed
    parameter, [body] the snippet of the upstream text.  The cut shows in
    the body alone: the returned body is longer than 2000 code units
    exactly when the fetched text was, and it is then the first 2000 and
    the marker; otherwise it is the fetched text. *)
Theorem success_reply_shape (tl : jsstring -> jsstring) (w : World)
    (q : QueryValue) (r : HttpResponse) :
  outcome_of w (api_fetch tl q) = inl r ->
  statusCode r = 200 ->
  exists raw st body,
    q = QString raw
    /\ settle_try w (trim raw) fetch_options = inl (st, body)
    /\ payload r = JsonBody [("status", JNum st); ("url", JStr (trim raw));
                             ("body", JStr (snippet body))]
    /\ json_field "truncated" (response_fields r) = None
    /\ (2000 < jslength (snippet body) <-> 2000 < jslength body)
    /\ (2000 < jslength body ->
          snippet body = take 2000 body ++ truncation_marker)
    /\ (jslength body <= 2000 -> snippet body = body).
Proof.
  intros Hout H200. destruct q as [|raw|]; try discriminate.
  - rewrite api_fetch_undefined in Hout. injection Hout as <-. discriminate.
  - unfold outcome_of in Hout. rewrite api_fetch_by_decision in Hout.
    cbv zeta in Hout.
    destruct (falsy (trim raw)).
    { injection Hout as <-. discriminate. }
    destruct (validate tl (trim raw)); try (injection Hout as <-; discriminate).
    rewrite run_fetch_and_reply in Hout. simpl in Hout.
    destruct (settle_try w (trim raw) fetch_options) as [[st body]|e] eqn:E;
      injection Hout as <-; [|discriminate].
    exists raw, st, body.
    split; [reflexivity|]. split; [exact E|].
    split; [reflexivity|]. split; [reflexivity|].
    split; [|split; [apply snippet_long | apply snippet_short]].
    rewrite snippet_length. destruct (Z.gtb_spec (jslength body) 2000); lia.
Qed.

Lemma success_reply_shape_witness :
  let r := fetched_response 200 (js "http://example.com/") (replicate 2500 97) in
  json_field "truncated" (response_fields r) = None
  /\ 2000 < jslength (snippet (replicate 2500 97)).
Proof.
  intros r.
  destruct (success_reply_shape latinToLowerCase world_of_long_pages
              (QString (js " http://example.com/ ")) r)
    as (raw & st & body & Hq & Htry & _ & Hnone & Hcut & _).
  - vm_compute. reflexivity.
  - reflexivity.
  - split; [exact Hnone|].
    injection Hq as <-. vm_compute in Htry. injection Htry as _ <-.
    apply Hcut. vm_compute. reflexivity.
Defined.

(** C5, as the claim words it, fails: a page of 2500 letters fetched
    from [http://example.com/] is cut, and the reply carries no
    [truncated] field to say so. *)
Lemma success_reply_has_no_truncated_field :
  exists r,
    outcome_of world_of_long_pages
      (api_fetch latinToLowerCase (QString (js "http://example.com/"))) = inl r
    /\ statusCode r = 200
    /\ map fst (response_fields r) = ["status"; "url"; "body"]%string
    /\ json_field "truncated" (response_fields r) = None
    /\ json_field "body" (response_fields r)
       = Some (JStr (take 2000 (replicate 2500 97) ++ truncation_marker)).
Proof.
  eexists. split; [vm_compute; reflexivity|].
  repeat split.
Qed.

(** ** The missing-parameter guard (lines 72-73) *)

(** C10.  A [url] parameter made only of white space (the code units
    [trim] strips) is answered 400 [{error: "url parameter required"}],
    the answer of an absent parameter.  The reply is produced at once,
    whatever [toLowerCase] and the world are: neither the forbid-list and
    scheme test nor the fetch takes part. *)
Theorem blank_url_is_required (tl : jsstring -> jsstring) (w : World)
    (raw : jsstring) :
  forallb isTrimmable raw = true ->
  api_fetch tl (QString raw)
    = Respond (error_response 400 "url parameter required")
  /\ api_fetch tl (QString raw) = api_fetch tl QUndefined
  /\ run w (api_fetch tl (QString raw))
     = ([], inl (error_response 400 "url parameter required")).
Proof.
  intros H. apply trim_blank in H.
  assert (api_fetch tl (QString raw)
          = Respond (error_response 400 "url parameter required")) as E.
  { unfold api_fetch. simpl. rewrite H. reflexivity. }
  rewrite E. repeat split.
Qed.

Lemma blank_url_is_required_witness :
  run world_of_long_pages
      (api_fetch latinToLowerCase (QString [32; 9; 10; 13; 160; 8195; 65279]))
  = ([], inl (error_response 400 "url parameter required")).
Proof.
  apply (blank_url_is_required latinToLowerCase world_of_long_pages
           [32; 9; 10; 13; 160; 8195; 65279]).
  reflexivity.
Defined.

(** ** The forbid-list and the fetch (lines 76-96) *)

Lemma run_api_fetch (tl : jsstring -> jsstring) (w : World) (raw : jsstring) :
  run w (api_fetch tl (QString raw)) =
    let url := trim raw in
    if falsy url then ([], inl (error_response 400 "url parameter required"))
    else match validate tl url with
         | Forbidden =>
             ([], inl (error_response 403 "local addresses are not allowed"))
         | UnsupportedScheme =>
             ([], inl (error_response 400 "only http and https allowed"))
         | Allowed =>
             ([(url, fetch_options)],
              inl match settle_try w url fetch_options with
                  | inl (st, body) => fetched_response st url body
                  | inr e => fetch_failed e
                  end)
         end.
Proof.
  rewrite api_fetch_by_decision. cbv zeta.
  destruct (falsy (trim raw)); [reflexivity|].
  destruct (validate tl (trim raw)); try reflexivity.
  apply run_fetch_and_reply.
Qed.

(** C3.  Whatever the request and the world, an outbound call is made
    only for a string parameter whose trimmed form the forbid-list and the
    scheme test both let through, it is made for that trimmed url with
    the options of line 88, and it is the only one.  When the trimmed url
    is rejected, as forbidden or for its scheme, the handler has answered
    without any call. *)
Theorem fetch_only_after_validation (tl : jsstring -> jsstring) (w : World) :
  (forall q url opts,
     (url, opts) ∈ calls_of w (api_fetch tl q) ->
     exists raw,
       q = QString raw /\ url = trim raw /\ opts = fetch_options
       /\ validate tl url = Allowed
       /\ calls_of w (api_fetch tl q) = [(url, opts)]) /\
  (forall raw,
     validate tl (trim raw) <> Allowed ->
     calls_of w (api_fetch tl (QString raw)) = []
     /\ exists r, api_fetch tl (QString raw) = Respond r) /\
  (forall q, (length (calls_of w (api_fetch tl q)) <= 1)%nat).
Proof.
  split; [|split].
  - intros q url opts Hin. destruct q as [|raw|].
    + rewrite api_fetch_undefined in Hin. inversion Hin.
    + unfold calls_of in *. rewrite run_api_fetch in *. cbv zeta in *.
      destruct (falsy (trim raw)); [inversion Hin|].
      destruct (validate tl (trim raw)) eqn:E; try (inversion Hin; fail).
      simpl in Hin. apply list_elem_of_singleton in Hin. injection Hin as -> ->.
      exists raw. auto.
    + inversion Hin.
  - intros raw Hno. unfold calls_of. rewrite run_api_fetch, api_fetch_by_decision.
    cbv zeta. destruct (falsy (trim raw)); [eauto|].
    destruct (validate tl (trim raw));
      [exfalso; apply Hno; reflexivity | eauto | eauto].
  - intros q. destruct q as [|raw|]; [simpl; lia | | simpl; lia].
    unfold calls_of. rewrite run_api_fetch. cbv zeta.
    destruct (falsy (trim raw)); [simpl; lia|].
    destruct (validate tl (trim raw)); simpl; lia.
Qed.

Lemma fetch_only_after_validation_witness :
  validate latinToLowerCase (js "http://2130706433:8000/internal/flag") = Allowed
  /\ calls_of world_of_long_pages
       (api_fetch latinToLowerCase (QString (js "http://LocalHost:8000/"))) = []
  /\ calls_of world_of_long_pages
       (api_fetch latinToLowerCase (QString (js "gopher://example.com/"))) = [].
Proof.
  destruct (fetch_only_after_validation latinToLowerCase world_of_long_pages)
    as (Hcall & Hnone & _).
  split.
  - destruct (Hcall (QString (js " http://2130706433:8000/internal/flag"))
                (js "http://2130706433:8000/internal/flag") fetch_options)
      as (raw & Hq & Hurl & _ & Hok & _).
    + vm_compute. left.
    + exact Hok.
  - split.
    + apply (Hnone (js "http://LocalHost:8000/")). vm_compute. discriminate.
    + apply (Hnone (js "gopher://example.com/")). vm_compute. discriminate.
Defined.

(** C8, as the code stands.  For a parameter whose trimmed url passes
    both tests, the handler calls [fetch] once, with redirects followed
    and a timeout of 5000 ms, and answers from how the [try] block
    settles.  The reply is 500
    [{error: "fetch failed", detail: String(e)}] exactly when [fetch] or
    the read of the body rejects with some [e], whatever its cause: a
    failure to reach the server, the expiry of the timeout, or any other
    error, a [FetchError] or not.  [String(e)] is the error's name and
    message joined by a colon and a space, or the one of the two that is
    not empty.  When an upstream reply arrives and its text is read,
    whatever its status code, the reply is 200 with that status code in
    the [status] field. *)
Theorem fetch_failure_is_500 (tl : jsstring -> jsstring) (w : World)
    (raw : jsstring) :
  validate tl (trim raw) = Allowed ->
  let url := trim raw in
  calls_of w (api_fetch tl (QString raw)) = [(url, fetch_options)]
  /\ redirect fetch_options = redirect_follow
  /\ timeout fetch_options = 5000
  /\ (exists r,
       outcome_of w (api_fetch tl (QString raw)) = inl r
       /\ (statusCode r = 500 <->
           exists e, settle_try w url fetch_options = inr e)
       /\ (forall e, settle_try w url fetch_options = inr e ->
             r = {| statusCode := 500;
                    payload := JsonBody [("error", JStr (js "fetch failed"));
                                         ("detail", JStr (String_of_error e))] |})
       /\ (forall st body,
             settle_try w url fetch_options = inl (st, body) ->
             statusCode r = 200
             /\ json_field "status" (response_fields r) = Some (JNum st)
             /\ r = fetched_response st url body))
  /\ (forall c name d message,
        String_of_error {| err_name := c :: name; err_message := d :: message |}
        = (c :: name) ++ [58; 32] ++ (d :: message))
  /\ (forall message,
        String_of_error {| err_name := []; err_message := message |} = message)
  /\ (forall name,
        String_of_error {| err_name := name; err_message := [] |} = name).
Proof.
  intros Hok url. subst url.
  unfold calls_of, outcome_of. rewrite run_api_fetch. cbv zeta.
  rewrite (validate_allowed_nonempty _ _ Hok), Hok. simpl.
  split; [reflexivity|]. split; [reflexivity|]. split; [reflexivity|].
  split.
  - eexists. split; [reflexivity|].
    destruct (settle_try w (trim raw) fetch_options) as [[st body]|e].
    + split; [|split].
      * simpl. split; [discriminate | intros [e He]; discriminate].
      * discriminate.
      * intros st' body' [= -> ->]. auto.
    + split; [|split].
      * simpl. split; [eauto | reflexivity].
      * intros e' [= ->]. reflexivity.
      * discriminate.
  - split; [reflexivity|]. split; [reflexivity|].
    intros [|c name]; reflexivity.
Qed.

Lemma fetch_failure_is_500_witness :
  outcome_of world_unreachable
    (api_fetch latinToLowerCase (QString (js "http://example.com/")))
  = inl {| statusCode := 500;
           payload := JsonBody
             [("error", JStr (js "fetch failed"));
              ("detail", JStr (js "FetchError: connect ECONNREFUSED"))] |}
  /\ outcome_of world_of_missing_pages
       (api_fetch latinToLowerCase (QString (js "http://example.com/")))
     = inl (fetched_response 404 (js "http://example.com/") (js "Not Found")).
Proof.
  split.
  - destruct (fetch_failure_is_500 latinToLowerCase world_unreachable
                (js "http://example.com/"))
      as (_ & _ & _ & (r & Hr & _ & Hfail & _) & Hjoin & _); [reflexivity|].
    rewrite Hr. f_equal.
    rewrite (Hfail {| err_name := js "FetchError";
                      err_message := js "connect ECONNREFUSED" |} eq_refl).
    change (js "FetchError") with (70 :: js "etchError").
    change (js "connect ECONNREFUSED") with (99 :: js "onnect ECONNREFUSED").
    rewrite Hjoin. reflexivity.
  - destruct (fetch_failure_is_500 latinToLowerCase world_of_missing_pages
                (js "http://example.com/"))
      as (_ & _ & _ & (r & Hr & _ & _ & Hgood) & _); [reflexivity|].
    rewrite Hr. f_equal. apply Hgood. reflexivity.
Defined.

(** C8, as the claim words it, fails.  The url [http://] passes both
    tests; [fetch] cannot parse it and rejects with a [TypeError], which
    is no [FetchError], before any request is made; the [catch] answers
    500 all the same, with no network failure and no timeout behind
    it. *)
Lemma invalid_url_is_500_too :
  validate latinToLowerCase (js "http://") = Allowed
  /\ world_of_invalid_urls (js "http://") fetch_options
     = Rejected {| err_name := js "TypeError"; err_message := js "Invalid URL" |}
  /\ is_FetchError {| err_name := js "TypeError"; err_message := js "Invalid URL" |}
     = false
  /\ run world_of_invalid_urls
       (api_fetch latinToLowerCase (QString (js "http://")))
     = ([(js "http://", fetch_options)],
        inl {| statusCode := 500;
               payload := JsonBody
                 [("error", JStr (js "fetch failed"));
                  ("detail", JStr (js "TypeError: Invalid URL"))] |}).
Proof. repeat split. Qed.

(** ** The forbid-list comes first (lines 76-84) *)

Lemma latinToLowerCase_lowers_latin : lowers_latin latinToLowerCase.
Proof. intros s _. reflexivity. Qed.

Ltac literal_shape :=
  change (js "localhost") with (108 :: [111; 99; 97; 108; 104; 111; 115] ++ [116]) in *;
  change (js "127.0.0.1") with (49 :: [50; 55; 46; 48; 46; 48; 46] ++ [49]) in *;
  change (js "::1") with (58 :: [58] ++ [49]) in *.

Section Forbidlist.

Variable tl : jsstring -> jsstring.
Hypothesis tl_latin : lowers_latin tl.

Lemma forbidlisted_nonempty (url : jsstring) :
  forbidlisted (tl url) = true -> falsy url = false.
Proof.
  destruct url; [|reflexivity].
  rewrite tl_latin by reflexivity. discriminate.
Qed.

Lemma forbidlisted_is_forbidden (url : jsstring) :
  forbidlisted (tl url) = true -> validate tl url = Forbidden.
Proof. intros H. unfold validate. rewrite H. reflexivity. Qed.

Lemma run_forbidlisted (w : World) (raw : jsstring) :
  forbidlisted (tl (trim raw)) = true ->
  run w (api_fetch tl (QString raw))
  = ([], inl (error_response 403 "local addresses are not allowed")).
Proof.
  intros H. rewrite run_api_fetch. cbv zeta.
  rewrite (forbidlisted_nonempty _ H), (forbidlisted_is_forbidden _ H).
  reflexivity.
Qed.

(** On a parameter of Basic Latin the forbid-list gives the same
    verdict before and after [trim]: no listed literal starts or ends
    with white space. *)
Lemma forbidlisted_trim_latin (raw : jsstring) :
  allLatin raw = true ->
  forbidlisted (tl raw) = true -> forbidlisted (tl (trim raw)) = true.
Proof.
  intros Hlat. rewrite !tl_latin by auto using allLatin_trim.
  rewrite <- trim_lowerLatin. unfold forbidlisted.
  rewrite !orb_true_iff, !includes_spec. literal_shape.
  intros [[H|H]|H]; [left; left | left; right | right];
    (apply occurs_trim; [reflexivity | reflexivity | exact H]).
Qed.

(** C1.  When the lowered url contains ["localhost"], ["127.0.0.1"] or
    ["::1"], the decision is forbidden, and the request whose trimmed
    parameter is that url is answered 403
    [{error: "local addresses are not allowed"}] with no outbound call.
    For a parameter of Basic Latin the same holds with the test read on
    the parameter as sent, before trimming. *)
Theorem forbidlisted_url_is_403 (url : jsstring) :
  includes (tl url) (js "localhost") = true
  \/ includes (tl url) (js "127.0.0.1") = true
  \/ includes (tl url) (js "::1") = true ->
  validate tl url = Forbidden
  /\ (forall w raw,
        trim raw = url ->
        run w (api_fetch tl (QString raw))
        = ([], inl {| statusCode := 403;
                      payload := JsonBody
                        [("error", JStr (js "local addresses are not allowed"))] |}))
  /\ (allLatin url = true ->
      forall w,
        run w (api_fetch tl (QString url))
        = ([], inl {| statusCode := 403;
                      payload := JsonBody
                        [("error", JStr (js "local addresses are not allowed"))] |})).
Proof.
  intros H.
  assert (forbidlisted (tl url) = true) as Hf.
  { unfold forbidlisted. rewrite !orb_true_iff. tauto. }
  split; [apply forbidlisted_is_forbidden, Hf|]. split.
  - intros w raw <-. apply run_forbidlisted, Hf.
  - intros Hlat w. apply run_forbidlisted, forbidlisted_trim_latin; assumption.
Qed.

(** C7.  The forbid-list is tested before the scheme.  A url that is on
    the forbid-list and also lacks the [http://] or [https://] prefix is
    forbidden, and its request is answered 403 "local addresses are not
    allowed", not 400 "only http and https allowed"; so is
    [ftp://localhost/].  The scheme rejection, as a decision and as
    a reply, is reached only by urls that are not on the forbid-list. *)
Theorem forbidlist_before_scheme :
  (forall url,
     forbidlisted (tl url) = true -> test_http_scheme url = false ->
     validate tl url = Forbidden
     /\ validate tl url <> UnsupportedScheme
     /\ forall w raw,
          trim raw = url ->
          run w (api_fetch tl (QString raw))
          = ([], inl (error_response 403 "local addresses are not allowed"))) /\
  (forall url,
     validate tl url = UnsupportedScheme ->
     forbidlisted (tl url) = false /\ test_http_scheme url = false) /\
  (forall w raw,
     outcome_of w (api_fetch tl (QString raw))
     = inl (error_response 400 "only http and https allowed") ->
     forbidlisted (tl (trim raw)) = false
     /\ test_http_scheme (trim raw) = false) /\
  (test_http_scheme (js "ftp://localhost/") = false
   /\ validate tl (js "ftp://localhost/") = Forbidden
   /\ forall w,
        run w (api_fetch tl (QString (js "ftp://localhost/")))
        = ([], inl (error_response 403 "local addresses are not allowed"))).
Proof.
  split; [|split; [|split]].
  - intros url Hf _.
    pose proof (forbidlisted_is_forbidden _ Hf) as Hv.
    split; [exact Hv|]. split; [rewrite Hv; discriminate|].
    intros w raw <-. apply run_forbidlisted, Hf.
  - intros url. unfold validate.
    destruct (forbidlisted (tl url)); [discriminate|].
    destruct (test_http_scheme url); [discriminate | auto].
  - intros w raw. unfold outcome_of. rewrite run_api_fetch. cbv zeta.
    destruct (falsy (trim raw)); [discriminate|].
    unfold validate.
    destruct (forbidlisted (tl (trim raw))); [discriminate|].
    destruct (test_http_scheme (trim raw)); simpl; [|auto].
    destruct (settle_try _ _ _) as [[? ?]|?]; discriminate.
  - assert (forbidlisted (tl (js "ftp://localhost/")) = true) as Hf.
    { rewrite tl_latin by reflexivity. reflexivity. }
    split; [reflexivity|]. split; [apply forbidlisted_is_forbidden, Hf|].
    intros w. apply run_forbidlisted. exact Hf.
Qed.

End Forbidlist.

Lemma forbidlisted_url_is_403_witness :
  validate latinToLowerCase (js "http://LocalHost:8000/internal/flag") = Forbidden
  /\ run world_of_long_pages
       (api_fetch latinToLowerCase (QString (js "  http://127.0.0.1:8000/internal/flag ")))
     = ([], inl (error_response 403 "local addresses are not allowed"))
  /\ run world_of_long_pages
       (api_fetch latinToLowerCase (QString (js " http://[::1]:8000/ ")))
     = ([], inl (error_response 403 "local addresses are not allowed")).
Proof.
  split; [|split].
  - apply (forbidlisted_url_is_403 latinToLowerCase latinToLowerCase_lowers_latin
             (js "http://LocalHost:8000/internal/flag")).
    left. reflexivity.
  - apply (forbidlisted_url_is_403 latinToLowerCase latinToLowerCase_lowers_latin
             (js "http://127.0.0.1:8000/internal/flag")).
    + right. left. reflexivity.
    + reflexivity.
  - apply (forbidlisted_url_is_403 latinToLowerCase latinToLowerCase_lowers_latin
             (js " http://[::1]:8000/ ")).
    + right. right. reflexivity.
    + reflexivity.
Defined.

Lemma forbidlist_before_scheme_witness :
  validate latinToLowerCase (js "gopher://LOCALHOST/") = Forbidden
  /\ run world_of_long_pages
       (api_fetch latinToLowerCase (QString (js "ftp://localhost/")))
     = ([], inl (error_response 403 "local addresses are not allowed")).
Proof.
  destruct (forbidlist_before_scheme latinToLowerCase latinToLowerCase_lowers_latin)
    as (Hboth & _ & _ & _ & _ & Hftp).
  split.
  - apply (Hboth (js "gopher://LOCALHOST/")); reflexivity.
  - apply Hftp.
Defined.

(** ** Numeric hosts pass the forbid-list (lines 76-84) *)

Lemma isLatin_lowerLatin (c : codeunit) : isLatin (lowerLatin c) = isLatin c.
Proof.
  unfold isLatin, lowerLatin.
  destruct (Z.leb_spec 65 c), (Z.leb_spec c 90); simpl; try reflexivity.
  destruct (Z.leb_spec 0 c), (Z.leb_spec 0 (c + 32)),
    (Z.ltb_spec c 128), (Z.ltb_spec (c + 32) 128); simpl; try reflexivity; lia.
Qed.

Lemma allLatin_lowerLatin (s : jsstring) :
  allLatin (map lowerLatin s) = allLatin s.
Proof.
  unfold allLatin. induction s as [|c s IH]; simpl; [reflexivity|].
  rewrite isLatin_lowerLatin, IH. reflexivity.
Qed.

Lemma numeric_unit_cases (c : codeunit) :
  isNumericHostUnit c = true ->
  48 <= c <= 57 \/ 97 <= c <= 102 \/ 65 <= c <= 70 \/ c = 120 \/ c = 88 \/ c = 46.
Proof.
  unfold isNumericHostUnit.
  rewrite !orb_true_iff, !andb_true_iff, !Z.leb_le, !Z.eqb_eq. tauto.
Qed.

Lemma numeric_unit_lowered (c : codeunit) :
  isNumericHostUnit c = true ->
  isLatin c = true /\ lowerLatin c <> 108 /\ lowerLatin c <> 58.
Proof.
  intros H%numeric_unit_cases. unfold isLatin, lowerLatin.
  destruct (Z.leb_spec 65 c), (Z.leb_spec c 90); simpl;
    (split; [apply andb_true_iff; rewrite Z.leb_le, Z.ltb_lt|]); lia.
Qed.

Lemma numeric_host_lowered (host : jsstring) :
  forallb isNumericHostUnit host = true ->
  allLatin host = true
  /\ (108 ∉ map lowerLatin host) /\ (58 ∉ map lowerLatin host).
Proof.
  unfold allLatin. induction host as [|c host IH]; simpl.
  - intros _. split; [reflexivity|]. split; apply not_elem_of_nil.
  - intros [Hc Hh]%andb_true_iff.
    destruct (numeric_unit_lowered c Hc) as (Hl & H108 & H58).
    destruct (IH Hh) as (IHl & IH108 & IH58).
    rewrite Hl, IHl. split; [reflexivity|].
    split; apply not_elem_of_cons; auto.
Qed.

(** A literal of digits and dots is found in the lowered text only where
    it stood in the text itself. *)
Lemma lowerLatin_fixes (lit s : jsstring) :
  Forall (fun c => c < 97 \/ 122 < c) lit ->
  map lowerLatin s = lit -> s = lit.
Proof.
  intros Hlit. revert s. induction Hlit as [|c lit Hc _ IH]; intros s Hs.
  - destruct s; [reflexivity | discriminate].
  - destruct s as [|d s]; [discriminate|]. simpl in Hs.
    injection Hs as Hd Hs. f_equal; [|apply IH, Hs].
    unfold lowerLatin in Hd.
    destruct (Z.leb_spec 65 d), (Z.leb_spec d 90); simpl in Hd; lia.
Qed.

Lemma occurs_lowered_digits (lit s : jsstring) :
  Forall (fun c => c < 97 \/ 122 < c) lit ->
  occurs lit (map lowerLatin s) -> occurs lit s.
Proof.
  intros Hlit (a & b & H).
  apply map_eq_app in H as (a' & s' & -> & Ha & H).
  apply map_eq_app in H as (lit' & b' & -> & Hl & Hb).
  apply (lowerLatin_fixes _ _ Hlit) in Hl as ->.
  exists a', b'. reflexivity.
Qed.

Ltac not_in_literal :=
  let H := fresh in let H' := fresh in
  intros H; vm_compute in H;
  repeat (destruct (proj1 (elem_of_cons _ _ _) H) as [H'|H'];
          [discriminate H' | clear H; rename H' into H]);
  inversion H.

Section NumericHosts.

Variable tl : jsstring -> jsstring.
Hypothesis tl_latin : lowers_latin tl.

Lemma numeric_host_not_forbidlisted (scheme host rest : jsstring) :
  http_prefix scheme ->
  numeric_host host = true ->
  includes host (js "127.0.0.1") = false ->
  after_host rest = true ->
  forbidlisted (map lowerLatin rest) = false ->
  forbidlisted (map lowerLatin (scheme ++ host ++ rest)) = false.
Proof.
  intros Hs [_ Hh]%andb_true_iff H127 Hd Hr.
  destruct (numeric_host_lowered host Hh) as (_ & Hl & Hc).
  apply includes_false_spec in H127.
  unfold forbidlisted in *.
  apply orb_false_iff in Hr as [[Hr1 Hr2]%orb_false_iff Hr3].
  apply includes_false_spec in Hr1, Hr2, Hr3.
  rewrite !map_app.
  set (H' := map lowerLatin host) in *. set (R' := map lowerLatin rest) in *.
  assert (~ occurs (js "127.0.0.1") H') as H127'.
  { intros Hocc. apply H127. apply occurs_lowered_digits; [|exact Hocc].
    repeat constructor; lia. }
  assert (after_host R' = true) as Hd'.
  { subst R'. destruct rest as [|d rest]; [reflexivity|]. simpl in *.
    rewrite !orb_true_iff, !Z.eqb_eq in Hd. unfold lowerLatin.
    destruct (Z.leb_spec 65 d), (Z.leb_spec d 90); simpl;
      rewrite !orb_true_iff, !Z.eqb_eq; lia. }
  clearbody H' R'. clear H127 Hh.
  assert (~ occurs (js "localhost") (H' ++ R')) as N1.
  { intros Hocc. apply Hr1. revert Hocc. literal_shape.
    apply occurs_after_foreign. exact Hl. }
  assert (~ occurs (js "::1") (H' ++ R')) as N3.
  { intros Hocc. apply Hr3. revert Hocc. literal_shape.
    apply occurs_after_foreign. exact Hc. }
  assert (~ occurs (js "127.0.0.1") (H' ++ R')) as N2.
  { intros Hocc. destruct R' as [|d R'].
    - rewrite app_nil_r in Hocc. auto.
    - simpl in Hd'. rewrite !orb_true_iff, !Z.eqb_eq in Hd'.
      apply occurs_across_separator in Hocc as [Hocc|Hocc].
      + auto.
      + apply Hr2. apply (occurs_suffix _ [d]). exact Hocc.
      + intros Hin. vm_compute in Hin.
        repeat (apply elem_of_cons in Hin as [Hin|Hin]; [lia|]).
        inversion Hin. }
  assert (forall lit S,
            lit <> [] -> 47 ∉ lit -> includes S lit = false ->
            ~ occurs lit (H' ++ R') ->
            includes ((S ++ [47]) ++ H' ++ R') lit = false) as Hsep.
  { intros lit S Hne Hslash HS Hrest. apply includes_false_spec.
    rewrite <- app_assoc. simpl. intros Hocc.
    apply occurs_across_separator in Hocc as [Hocc|Hocc]; [| |exact Hslash].
    - apply includes_false_spec in HS. auto.
    - auto. }
  destruct Hs as [-> | ->].
  - change (js "http://") with (js "http:/" ++ [47]).
    rewrite !Hsep; try reflexivity; try discriminate; try assumption;
      not_in_literal.
  - change (js "https://") with (js "https:/" ++ [47]).
    rewrite !Hsep; try reflexivity; try discriminate; try assumption;
      not_in_literal.
Qed.

(** On these two urls every [toLowerCase] gives the same verdict. *)
Lemma numeric_host_with_listed_query :
  validate tl (js "http://2130706433/?next=localhost") = Forbidden.
Proof. unfold validate. rewrite tl_latin by reflexivity. reflexivity. Qed.

Lemma numeric_host_with_other_scheme :
  validate tl (js "ftp://2130706433/") = UnsupportedScheme.
Proof. unfold validate. rewrite tl_latin by reflexivity. reflexivity. Qed.

(** C2, as the code stands.  Take a url made of [http://] or
    [https://] in any letter case, then a host written with the
    characters of decimal, octal or hex IPv4 notation that does not
    contain the text [127.0.0.1], then nothing or a remainder of Basic
    Latin that opens with [:], [/], [?] or [#] and whose lowered form
    holds none of the three listed literals.  The decision is allowed:
    the host is never resolved or normalized.  So it is for
    [2130706433], [0177.0.0.1] and [0x7f.0x0.0x0.0x1], alone or with
    [:8000/internal/flag] behind them. *)
Theorem numeric_host_is_allowed :
  (forall scheme host rest,
     http_prefix scheme ->
     numeric_host host = true ->
     includes host (js "127.0.0.1") = false ->
     after_host rest = true ->
     allLatin rest = true ->
     forbidlisted (tl rest) = false ->
     validate tl (scheme ++ host ++ rest) = Allowed) /\
  validate tl (js "http://2130706433") = Allowed /\
  validate tl (js "http://0177.0.0.1") = Allowed /\
  validate tl (js "http://0x7f.0x0.0x0.0x1") = Allowed /\
  validate tl (js "http://2130706433:8000/internal/flag") = Allowed /\
  validate tl (js "http://0177.0.0.1:8000/internal/flag") = Allowed /\
  validate tl (js "http://0x7f.0x0.0x0.0x1:8000/internal/flag") = Allowed.
Proof.
  split.
  - intros scheme host rest Hs Hh H127 Hd Hlat Hr.
    rewrite tl_latin in Hr by exact Hlat.
    assert (allLatin scheme = true) as Hslat.
    { rewrite <- allLatin_lowerLatin. destruct Hs as [-> | ->]; reflexivity. }
    assert (allLatin (scheme ++ host ++ rest) = true) as Hall.
    { apply andb_true_iff in Hh as [_ Hh].
      destruct (numeric_host_lowered host Hh) as (Hhlat & _).
      unfold allLatin in *. rewrite !forallb_app, Hslat, Hhlat, Hlat.
      reflexivity. }
    unfold validate. rewrite tl_latin by exact Hall.
    rewrite numeric_host_not_forbidlisted by assumption.
    assert (test_http_scheme (scheme ++ host ++ rest) = true) as ->;
      [|reflexivity].
    unfold test_http_scheme. apply orb_true_iff.
    destruct Hs as [Hs | Hs]; [left | right]; rewrite <- Hs;
      apply startsWith_i_lowered.
  - repeat split; unfold validate; rewrite tl_latin by reflexivity;
      reflexivity.
Qed.

End NumericHosts.

Lemma numeric_host_is_allowed_witness :
  validate latinToLowerCase (js "HTTPS://0X7F.1/admin?id=7#top") = Allowed
  /\ validate latinToLowerCase (js "http://2130706433:8000/internal/flag") = Allowed.
Proof.
  destruct (numeric_host_is_allowed latinToLowerCase latinToLowerCase_lowers_latin)
    as (Hany & _ & _ & _ & Hdec & _).
  split; [|exact Hdec].
  apply (Hany (js "HTTPS://") (js "0X7F.1") (js "/admin?id=7#top"));
    solve [reflexivity | right; reflexivity].
Defined.

(** C2, as the claim words it, fails: a url whose host is the decimal
    spelling [2130706433] of 127.0.0.1 is forbidden when a listed
    literal stands in its query, and is refused for its scheme when it
    is not an http or https url. *)
Lemma numeric_host_is_not_always_allowed :
  validate latinToLowerCase (js "http://2130706433/?next=localhost") = Forbidden
  /\ validate latinToLowerCase (js "ftp://2130706433/") = UnsupportedScheme.
Proof.
  split.
  - apply numeric_host_with_listed_query, latinToLowerCase_lowers_latin.
  - apply numeric_host_with_other_scheme, latinToLowerCase_lowers_latin.
Qed.

(** ** The internal debug service (lines 28-51) *)

Lemma api_fetch_replies (tl : jsstring -> jsstring) (w : World)
    (q : QueryValue) :
  q <> QStructured -> exists r, outcome_of w (api_fetch tl q) = inl r.
Proof.
  intros Hq. destruct q as [|raw|]; [ | | exfalso; apply Hq; reflexivity].
  - rewrite api_fetch_undefined. eexists. reflexivity.
  - unfold outcome_of. rewrite run_api_fetch. cbv zeta.
    destruct (falsy (trim raw)); [eexists; reflexivity|].
    destruct (validate tl (trim raw)); eexists; reflexivity.
Qed.

Lemma serve_alive (tl : jsstring -> jsstring) (m : Moment) (p : Process)
    (r : Request) :
  constants (fst (serve tl m p r)) = constants p
  /\ alive (fst (serve tl m p r)) = alive p && negb (is_fatal r).
Proof.
  unfold serve. destruct (alive p) eqn:Ea; [|simpl; rewrite ?Ea; auto].
  destruct r as [|q]; [simpl; rewrite ?Ea; auto|].
  destruct q as [|raw|].
  - destruct (api_fetch_replies tl (network m) QUndefined) as [r ->];
      [discriminate|]. simpl. rewrite ?Ea. auto.
  - destruct (api_fetch_replies tl (network m) (QString raw)) as [r ->];
      [discriminate|]. simpl. rewrite ?Ea. auto.
  - simpl. auto.
Qed.

Lemma serve_all_alive (tl : jsstring -> jsstring) (p : Process)
    (reqs : list (Moment * Request)) :
  constants (fst (serve_all tl p reqs)) = constants p
  /\ alive (fst (serve_all tl p reqs))
     = alive p && forallb (fun mr => negb (is_fatal (snd mr))) reqs.
Proof.
  revert p. induction reqs as [|[m r] reqs IH]; intros p; simpl.
  - rewrite andb_true_r. auto.
  - destruct (serve_alive tl m p r) as [Hc Ha].
    destruct (serve tl m p r) as [p' served]. simpl in Hc, Ha.
    destruct (IH p') as [Hc' Ha'].
    destruct (serve_all tl p' reqs) as [p'' rest]. simpl in *.
    rewrite Hc', Hc, Ha', Ha, andb_assoc. auto.
Qed.





(** ** More on [trim]: padding and idempotence (line 72) *)

Lemma trimStart_skip (ws s : jsstring) :
  forallb isTrimmable ws = true -> trimStart (ws ++ s) = trimStart s.
Proof.
  induction ws as [|c ws IH]; simpl; [reflexivity|].
  intros [Hc Hws]%andb_true_iff. rewrite Hc. auto.
Qed.

Lemma trimEnd_skip (s ws : jsstring) :
  forallb isTrimmable ws = true -> trimEnd (s ++ ws) = trimEnd s.
Proof.
  intros H. unfold trimEnd. rewrite rev_app_distr, trimStart_skip; [reflexivity|].
  rewrite forallb_rev. exact H.
Qed.

(** A string is all white space, or it is white space, then a unit that
    is not, then the rest. *)
Lemma first_visible (s : jsstring) :
  forallb isTrimmable s = true
  \/ exists ws c rest,
       s = ws ++ c :: rest /\ forallb isTrimmable ws = true
       /\ isTrimmable c = false.
Proof.
  induction s as [|d s IH]; [left; reflexivity|].
  destruct (isTrimmable d) eqn:Ed.
  - destruct IH as [IH | (ws & c & rest & -> & Hws & Hc)].
    + left. simpl. rewrite Ed. exact IH.
    + right. exists (d :: ws), c, rest. simpl. rewrite Ed. auto.
  - right. exists [], d, s. auto.
Qed.

Lemma trimEnd_blank (s : jsstring) :
  forallb isTrimmable s = true -> trimEnd s = [].
Proof.
  intros H. unfold trimEnd. rewrite trimStart_blank; [reflexivity|].
  rewrite forallb_rev. exact H.
Qed.

Lemma trimEnd_cons_visible (c : codeunit) (s : jsstring) :
  isTrimmable c = false -> trimEnd (c :: s) = c :: trimEnd s.
Proof. intros Hc. apply (trimEnd_keeps [] s c Hc). Qed.

(** Stripping the two ends can be done in either order. *)
Lemma trimEnd_trimStart (s : jsstring) :
  trimEnd (trimStart s) = trimStart (trimEnd s).
Proof.
  destruct (first_visible s) as [H | (ws & c & rest & -> & Hws & Hc)].
  - rewrite (trimStart_blank s H), (trimEnd_blank s H). reflexivity.
  - rewrite trimStart_skip by exact Hws. simpl trimStart at 1. rewrite Hc.
    rewrite trimEnd_cons_visible by exact Hc.
    rewrite trimEnd_keeps by exact Hc.
    rewrite trimStart_skip by exact Hws. simpl. rewrite Hc. reflexivity.
Qed.

Lemma trim_padding (before s after : jsstring) :
  forallb isTrimmable before = true -> forallb isTrimmable after = true ->
  trim (before ++ s ++ after) = trim s.
Proof.
  intros Hb Ha. unfold trim.
  rewrite trimStart_skip by exact Hb.
  rewrite !trimEnd_trimStart, trimEnd_skip by exact Ha. reflexivity.
Qed.

Lemma trimStart_idempotent (s : jsstring) :
  trimStart (trimStart s) = trimStart s.
Proof.
  induction s as [|c s IH]; simpl; [reflexivity|].
  destruct (isTrimmable c) eqn:E; [exact IH|]. simpl. rewrite E. reflexivity.
Qed.

Lemma trim_idempotent (s : jsstring) : trim (trim s) = trim s.
Proof.
  unfold trim. rewrite (trimEnd_trimStart s), trimStart_idempotent.
  rewrite <- (trimEnd_trimStart s).
  unfold trimEnd. rewrite rev_involutive, trimStart_idempotent. reflexivity.
Qed.

Lemma trimStart_head (s : jsstring) (c : codeunit) :
  head (trimStart s) = Some c -> isTrimmable c = false.
Proof.
  induction s as [|d s IH]; simpl; [discriminate|].
  destruct (isTrimmable d) eqn:E; [exact IH|].
  simpl. intros [= <-]. exact E.
Qed.

Lemma last_rev_head {A} (l : list A) : last l = head (rev l).
Proof.
  induction l as [|x l IH] using rev_ind; [reflexivity|].
  rewrite last_snoc, rev_app_distr. reflexivity.
Qed.

(** What [trim] returns has no white space at either end. *)
Lemma trim_ends (s : jsstring) :
  (forall c, head (trim s) = Some c -> isTrimmable c = false)
  /\ (forall c, last (trim s) = Some c -> isTrimmable c = false).
Proof.
  split; intros c H.
  - unfold trim in H. rewrite trimEnd_trimStart in H.
    apply trimStart_head in H. exact H.
  - unfold trim, trimEnd in H. rewrite last_rev_head, rev_involutive in H.
    apply trimStart_head in H. exact H.
Qed.

(** ** What every reply of [/api/fetch] looks like (lines 71-97) *)

(** X1.  White space around the [url] parameter is ignored: padding a
    parameter with code units that [trim] strips, before and after,
    gives the very same run of the handler, whatever the parameter. *)
Theorem padding_is_ignored (tl : jsstring -> jsstring)
    (before raw after : jsstring) :
  forallb isTrimmable before = true ->
  forallb isTrimmable after = true ->
  api_fetch tl (QString (before ++ raw ++ after)) = api_fetch tl (QString raw).
Proof.
  intros Hb Ha. unfold api_fetch. simpl.
  rewrite (trim_padding before raw after Hb Ha). reflexivity.
Qed.

Lemma padding_is_ignored_witness :
  api_fetch latinToLowerCase (QString (js "  " ++ js "http://example.com/a b" ++ [9; 13; 10]))
  = api_fetch latinToLowerCase (QString (js "http://example.com/a b")).
Proof.
  apply (padding_is_ignored latinToLowerCase (js "  ")
           (js "http://example.com/a b") [9; 13; 10]); reflexivity.
Defined.



(** X3.  The handler always ends one way or the other.  It dies with an
    uncaught [TypeError], and no reply, exactly when the [url] parameter
    is an array or an object; for an absent or string parameter it
    replies, and the status is one of 200, 400, 403 and 500. *)
Theorem reply_or_type_error (tl : jsstring -> jsstring) (w : World)
    (q : QueryValue) :
  (outcome_of w (api_fetch tl q) = inr TypeError_trim_is_not_a_function
     <-> q = QStructured) /\
  (q <> QStructured <-> exists r, outcome_of w (api_fetch tl q) = inl r) /\
  (q = QStructured -> calls_of w (api_fetch tl q) = []) /\
  (forall r, outcome_of w (api_fetch tl q) = inl r ->
     statusCode r = 200 \/ statusCode r = 400
     \/ statusCode r = 403 \/ statusCode r = 500).
Proof.
  destruct q as [|raw|].
  - rewrite api_fetch_undefined. unfold outcome_of, calls_of. simpl.
    split; [split; discriminate|]. split; [split; [eauto | discriminate]|].
    split; [discriminate|]. intros r [= <-]. auto.
  - unfold outcome_of, calls_of. rewrite run_api_fetch. cbv zeta.
    assert (exists r, (if falsy (trim raw)
              then ([], inl (error_response 400 "url parameter required"))
              else match validate tl (trim raw) with
                   | Allowed =>
                       ([(trim raw, fetch_options)],
                        inl match settle_try w (trim raw) fetch_options with
                            | inl (st, body) => fetched_response st (trim raw) body
                            | inr e => fetch_failed e
                            end)
                   | Forbidden =>
                       ([], inl (error_response 403 "local addresses are not allowed"))
                   | UnsupportedScheme =>
                       ([], inl (error_response 400 "only http and https allowed"))
                   end).2
              = (inl r : HttpResponse + Uncaught)
              /\ (statusCode r = 200 \/ statusCode r = 400
                  \/ statusCode r = 403 \/ statusCode r = 500))
      as (r & -> & Hst).
    { destruct (falsy (trim raw)); [eexists; split; [reflexivity | auto]|].
      destruct (validate tl (trim raw));
        [|eexists; split; [reflexivity | auto]..].
      destruct (settle_try w (trim raw) fetch_options) as [[st body]|e];
        eexists; (split; [reflexivity | auto]). }
    split; [split; discriminate|]. split; [split; [eauto | discriminate]|].
    split; [discriminate|]. intros r' [= <-]. exact Hst.
  - unfold outcome_of, calls_of. simpl.
    split; [split; reflexivity|].
    split; [split; [intros H; destruct H; reflexivity | intros [r H]; discriminate]|].
    split; [reflexivity|]. discriminate.
Qed.

(** X4.  The two reply shapes never mix.  Every reply of the handler is
    a JSON object; it has an [error] field exactly when its status is
    not 200, a [detail] field exactly when its status is 500, and the
    fields [status], [url] and [body] exactly when its status is 200. *)
Theorem error_field_iff_not_200 (tl : jsstring -> jsstring) (w : World)
    (q : QueryValue) (r : HttpResponse) :
  outcome_of w (api_fetch tl q) = inl r ->
  (exists o, payload r = JsonBody o)
  /\ (json_field "error" (response_fields r) <> None <-> statusCode r <> 200)
  /\ (json_field "detail" (response_fields r) <> None <-> statusCode r = 500)
  /\ (json_field "body" (response_fields r) <> None <-> statusCode r = 200)
  /\ (json_field "status" (response_fields r) <> None <-> statusCode r = 200)
  /\ (json_field "url" (response_fields r) <> None <-> statusCode r = 200).
Proof.
  assert (forall code msg,
            code <> 200 -> code <> 500 ->
            let r := error_response code msg in
            (exists o, payload r = JsonBody o)
            /\ (json_field "error" (response_fields r) <> None <-> statusCode r <> 200)
            /\ (json_field "detail" (response_fields r) <> None <-> statusCode r = 500)
            /\ (json_field "body" (response_fields r) <> None <-> statusCode r = 200)
            /\ (json_field "status" (response_fields r) <> None <-> statusCode r = 200)
            /\ (json_field "url" (response_fields r) <> None <-> statusCode r = 200))
    as Herr.
  { intros code msg H200 H500. simpl.
    split; [eauto|]. repeat split; intros H; try discriminate; try assumption;
      try (exfalso; apply H; reflexivity); try (exfalso; auto; fail). }
  intros Hout. destruct q as [|raw|]; [| |discriminate].
  - rewrite api_fetch_undefined in Hout. injection Hout as <-.
    apply Herr; discriminate.
  - unfold outcome_of in Hout. rewrite run_api_fetch in Hout. cbv zeta in Hout.
    destruct (falsy (trim raw)).
    { injection Hout as <-. apply Herr; discriminate. }
    destruct (validate tl (trim raw)).
    + simpl in Hout.
      destruct (settle_try w (trim raw) fetch_options) as [[st body]|e];
        injection Hout as <-; simpl;
        (split; [eauto|]); repeat split; intros H; try discriminate;
        try reflexivity; try (exfalso; apply H; reflexivity).
    + injection Hout as <-. apply Herr; discriminate.
    + injection Hout as <-. apply Herr; discriminate.
Qed.

Lemma error_field_iff_not_200_witness :
  json_field "error" (response_fields (error_response 403 "local addresses are not allowed"))
  <> None
  /\ json_field "body" (response_fields (error_response 403 "local addresses are not allowed"))
     = None.
Proof.
  destruct (error_field_iff_not_200 latinToLowerCase world_of_long_pages
              (QString (js "http://localhost/"))
              (error_response 403 "local addresses are not allowed"))
    as (_ & Herr & _ & Hbody & _); [reflexivity|].
  split; [apply Herr; discriminate|].
  destruct (json_field "body" _) eqn:E; [|reflexivity].
  assert (statusCode (error_response 403 "local addresses are not allowed") = 200)
    as H by (apply Hbody; discriminate).
  discriminate H.
Defined.

(** ** More on the scheme test (line 82) *)

Lemma matches_i_inv (p c : codeunit) :
  p < 65 \/ 90 < p -> matches_i p c = true -> lowerLatin c = p.
Proof.
  unfold matches_i, canonicalize, lowerLatin. intros Hp H%Z.eqb_eq.
  destruct (Z.leb_spec 97 c), (Z.leb_spec c 122), (Z.leb_spec 97 p),
    (Z.leb_spec p 122), (Z.leb_spec 65 c), (Z.leb_spec c 90);
    simpl in *; lia.
Qed.

Lemma startsWith_i_inv (pat s : jsstring) :
  Forall (fun p => p < 65 \/ 90 < p) pat ->
  startsWith_i s pat = true ->
  exists prefix rest, s = prefix ++ rest /\ map lowerLatin prefix = pat.
Proof.
  intros Hpat. revert s. induction Hpat as [|p pat Hp _ IH]; intros s H.
  - exists [], s. auto.
  - destruct s as [|c s]; [discriminate|]. simpl in H.
    apply andb_true_iff in H as [Hc Hs].
    destruct (IH s Hs) as (prefix & rest & -> & <-).
    exists (c :: prefix), rest. simpl.
    rewrite (matches_i_inv p c Hp Hc). auto.
Qed.

Lemma canonicalize_lowerLatin (c : codeunit) :
  canonicalize (lowerLatin c) = canonicalize c.
Proof.
  unfold canonicalize, lowerLatin.
  destruct (Z.leb_spec 65 c), (Z.leb_spec c 90); simpl; try reflexivity.
  destruct (Z.leb_spec 97 (c + 32)), (Z.leb_spec (c + 32) 122),
    (Z.leb_spec 97 c), (Z.leb_spec c 122); simpl; lia.
Qed.

Lemma startsWith_i_lowerLatin (s pat : jsstring) :
  startsWith_i (map lowerLatin s) pat = startsWith_i s pat.
Proof.
  revert s. induction pat as [|p pat IH]; intros s; [reflexivity|].
  destruct s as [|c s]; [reflexivity|]. simpl.
  rewrite IH. unfold matches_i. rewrite canonicalize_lowerLatin. reflexivity.
Qed.

Lemma test_http_scheme_lowerLatin (s : jsstring) :
  test_http_scheme (map lowerLatin s) = test_http_scheme s.
Proof.
  unfold test_http_scheme. rewrite !startsWith_i_lowerLatin. reflexivity.
Qed.

(** X5.  The scheme test passes exactly for the strings that open with
    [http://] or [https://] written in Basic Latin letters of either
    case: no code unit outside Basic Latin stands in for a letter of the
    pattern, and nothing after the two slashes matters. *)
Theorem scheme_test_accepts_only_latin_http (s : jsstring) :
  test_http_scheme s = true
  <-> exists prefix rest, s = prefix ++ rest /\ http_prefix prefix.
Proof.
  unfold test_http_scheme, http_prefix. rewrite orb_true_iff. split.
  - intros [H | H]; apply startsWith_i_inv in H as (prefix & rest & -> & Hp);
      try (exists prefix, rest; auto; fail);
      repeat constructor; lia.
  - intros (prefix & rest & -> & [H | H]); [left | right];
      rewrite <- H; apply startsWith_i_lowered.
Qed.

(** ** More on the decision (lines 76-84) *)

Lemma lowerLatin_idempotent (s : jsstring) :
  map lowerLatin (map lowerLatin s) = map lowerLatin s.
Proof.
  rewrite map_map. apply map_ext. intros c. unfold lowerLatin.
  destruct (Z.leb_spec 65 c), (Z.leb_spec c 90); simpl;
    repeat match goal with
           | |- context [?a <=? ?b] => destruct (Z.leb_spec a b); simpl
           end; lia.
Qed.

Section Decision.

Variable tl : jsstring -> jsstring.
Hypothesis tl_latin : lowers_latin tl.

Lemma validate_lowerLatin (url : jsstring) :
  allLatin url = true -> validate tl (map lowerLatin url) = validate tl url.
Proof.
  intros H. unfold validate.
  rewrite test_http_scheme_lowerLatin.
  rewrite !tl_latin by (rewrite ?allLatin_lowerLatin; exact H).
  rewrite lowerLatin_idempotent. reflexivity.
Qed.

(** X6.  On Basic Latin the decision does not depend on letter case:
    two urls of Basic Latin that differ only in the case of their
    letters are both allowed, both forbidden, or both refused for their
    scheme. *)
Theorem decision_ignores_case (url url' : jsstring) :
  allLatin url = true -> allLatin url' = true ->
  map lowerLatin url = map lowerLatin url' ->
  validate tl url = validate tl url'.
Proof.
  intros H H' E.
  rewrite <- (validate_lowerLatin url H), <- (validate_lowerLatin url' H'), E.
  reflexivity.
Qed.

Lemma forbidlisted_grows (before u after : jsstring) :
  forbidlisted u = true -> forbidlisted (before ++ u ++ after) = true.
Proof.
  unfold forbidlisted. rewrite !orb_true_iff, !includes_spec.
  assert (forall lit, occurs lit u -> occurs lit (before ++ u ++ after)) as Hin.
  { intros lit (a & b & ->). exists (before ++ a), (b ++ after).
    rewrite <- !app_assoc. reflexivity. }
  intros [[H|H]|H]; auto.
Qed.

(** X7.  The forbid-list looks at the whole parameter, not at its host:
    a Basic Latin parameter that contains, anywhere, a piece whose
    lowered form holds a listed literal is forbidden and answered 403
    without any outbound call, wherever the piece stands (host, path
    or query). *)
Theorem forbidden_piece_forbids_whole (before piece after : jsstring) :
  allLatin before = true -> allLatin piece = true -> allLatin after = true ->
  forbidlisted (tl piece) = true ->
  validate tl (before ++ piece ++ after) = Forbidden
  /\ forall w,
       run w (api_fetch tl (QString (before ++ piece ++ after)))
       = ([], inl (error_response 403 "local addresses are not allowed")).
Proof.
  intros Hb Hp Ha Hf.
  assert (allLatin (before ++ piece ++ after) = true) as Hall.
  { unfold allLatin in *. rewrite !forallb_app, Hb, Hp, Ha. reflexivity. }
  assert (forbidlisted (tl (before ++ piece ++ after)) = true) as Hwhole.
  { rewrite tl_latin in * by assumption. rewrite !map_app.
    apply forbidlisted_grows, Hf. }
  split; [apply forbidlisted_is_forbidden, Hwhole|].
  intros w. apply run_forbidlisted; [exact tl_latin|].
  apply forbidlisted_trim_latin; assumption.
Qed.

(** X8.  The status of a reply tells why it was given.  For a string
    parameter: 403 exactly when the lowered, trimmed url is on the
    forbid-list; 400 exactly when the trimmed url is empty, or is off
    the forbid-list and fails the scheme test; 200 or 500 exactly when
    the url passed both tests, and then exactly one outbound call was
    made. *)
Theorem status_tells_cause (w : World) (raw : jsstring) (r : HttpResponse) :
  outcome_of w (api_fetch tl (QString raw)) = inl r ->
  (statusCode r = 403 <-> forbidlisted (tl (trim raw)) = true)
  /\ (statusCode r = 400 <->
        trim raw = []
        \/ (forbidlisted (tl (trim raw)) = false
            /\ test_http_scheme (trim raw) = false))
  /\ (statusCode r = 200 \/ statusCode r = 500 <->
        validate tl (trim raw) = Allowed)
  /\ (validate tl (trim raw) = Allowed <->
        calls_of w (api_fetch tl (QString raw)) = [(trim raw, fetch_options)]).
Proof.
  unfold outcome_of, calls_of. rewrite run_api_fetch. cbv zeta.
  unfold validate.
  destruct (trim raw) as [|c url] eqn:Et.
  - simpl. intros [= <-]. rewrite tl_latin by reflexivity. simpl.
    repeat split; intros; try discriminate; auto; try tauto;
      destruct H; discriminate.
  - simpl falsy. cbv iota.
    destruct (forbidlisted (tl (c :: url))) eqn:Ef.
    + intros [= <-]. simpl.
      repeat split; intros; try discriminate; auto;
        try (destruct H as [H|H]; discriminate);
        try (destruct H as [H|[H _]]; discriminate).
    + destruct (test_http_scheme (c :: url)) eqn:Es; simpl.
      * destruct (settle_try w (c :: url) fetch_options) as [[st body]|e];
          intros [= <-]; simpl;
          repeat split; intros; try discriminate; auto;
          try (destruct H as [H|[_ H]]; discriminate).
      * intros [= <-]. simpl.
        repeat split; intros; try discriminate; auto;
          try (destruct H as [H|H]; discriminate).
Qed.

End Decision.

Lemma decision_ignores_case_witness :
  validate latinToLowerCase (js "HTTP://Example.COM/Path")
  = validate latinToLowerCase (js "http://example.com/path")
  /\ validate latinToLowerCase (js "hTTp://LOCALhost/")
     = validate latinToLowerCase (js "http://localhost/").
Proof.
  split;
    apply (decision_ignores_case latinToLowerCase latinToLowerCase_lowers_latin);
    reflexivity.
Defined.

Lemma forbidden_piece_forbids_whole_witness :
  validate latinToLowerCase (js "http://example.com/?next=http://LocalHost/") = Forbidden.
Proof.
  apply (forbidden_piece_forbids_whole latinToLowerCase latinToLowerCase_lowers_latin
           (js "http://example.com/?next=") (js "http://LocalHost") (js "/"));
    reflexivity.
Defined.

Lemma status_tells_cause_witness :
  forbidlisted (latinToLowerCase (trim (js " http://127.0.0.1/ "))) = true
  /\ validate latinToLowerCase (trim (js " http://example.com/ ")) = Allowed.
Proof.
  split.
  - destruct (status_tells_cause latinToLowerCase latinToLowerCase_lowers_latin
                world_unreachable (js " http://127.0.0.1/ ")
                (error_response 403 "local addresses are not allowed"))
      as (H403 & _); [reflexivity|].
    apply H403. reflexivity.
  - destruct (status_tells_cause latinToLowerCase latinToLowerCase_lowers_latin
                world_unreachable (js " http://example.com/ ")
                (fetch_failed {| err_name := js "FetchError";
                                 err_message := js "connect ECONNREFUSED" |}))
      as (_ & _ & Hfetch & _); [reflexivity|].
    apply Hfetch. right. reflexivity.
Defined.

(** ** More on truncation (line 92) *)

Lemma take_snippet (body : jsstring) :
  take 2000 (snippet body) = take 2000 body.
Proof.
  unfold snippet, slice0. destruct (Z.gtb_spec (jslength body) 2000) as [H|H];
    [|reflexivity].
  unfold jslength in H. rewrite take_app_le by (rewrite length_take; lia).
  rewrite take_take. reflexivity.
Qed.

(** X9.  Truncation keeps the head and can be repeated.  The first 2000
    code units of the fetched body are always the first 2000 of the
    returned one; truncating a returned body again changes nothing; and
    the returned body is the longer of the two exactly for fetched
    bodies of 2001 to 2015 code units, by at most 15. *)
Theorem snippet_keeps_head (body : jsstring) :
  take 2000 (snippet body) = take 2000 body
  /\ snippet (snippet body) = snippet body
  /\ (jslength body < jslength (snippet body)
      <-> 2000 < jslength body < 2016)
  /\ jslength (snippet body) <= jslength body + 15.
Proof.
  split; [apply take_snippet|]. split; [|split].
  - destruct (Z.gtb_spec (jslength body) 2000) as [H|H].
    + rewrite (snippet_long (snippet body)).
      * rewrite take_snippet. symmetry. apply snippet_long. lia.
      * rewrite snippet_length.
        destruct (Z.gtb_spec (jslength body) 2000); lia.
    + rewrite (snippet_short body H). apply snippet_short, H.
  - rewrite snippet_length.
    destruct (Z.gtb_spec (jslength body) 2000); lia.
  - rewrite snippet_length.
    destruct (Z.gtb_spec (jslength body) 2000); lia.
Qed.

(** ** The internal flag through the public handler (lines 38-42, 71-97) *)

(** X10.  When the trimmed url passes both tests and fetching it reaches
    [GET /internal/flag] of the same process, the reply is 200 with
    upstream status 200 and, as body, the snippet of
    ["admin-secret: " + FLAG + "\n"].  A secret of at most 1985 code
    units comes back whole; of a longer one, exactly the first 1986 code
    units come back, followed by the truncation marker. *)
Theorem flag_comes_back (tl : jsstring -> jsstring) (w : World)
    (c : Constants) (raw : jsstring) :
  validate tl (trim raw) = Allowed ->
  reaches_internal_flag w c (trim raw) ->
  exists r,
    outcome_of w (api_fetch tl (QString raw)) = inl r
    /\ statusCode r = 200
    /\ json_field "status" (response_fields r) = Some (JNum 200)
    /\ json_field "body" (response_fields r)
       = Some (JStr (snippet (js "admin-secret: " ++ FLAG c ++ [LF])))
    /\ (jslength (FLAG c) <= 1985 ->
        json_field "body" (response_fields r)
        = Some (JStr (js "admin-secret: " ++ FLAG c ++ [LF])))
    /\ (1985 < jslength (FLAG c) ->
        json_field "body" (response_fields r)
        = Some (JStr (js "admin-secret: " ++ take 1986 (FLAG c)
                        ++ truncation_marker))).
Proof.
  intros Hok (page & Hpage & Hw).
  unfold internal_flag in Hpage, Hw. cbn [payload statusCode] in Hpage, Hw.
  injection Hpage as <-.
  unfold outcome_of. rewrite run_api_fetch. cbv zeta.
  rewrite (validate_allowed_nonempty _ _ Hok), Hok.
  unfold settle_try. rewrite Hw. cbn [text status snd].
  exists (fetched_response 200 (trim raw) (js "admin-secret: " ++ FLAG c ++ [LF])).
  split; [reflexivity|]. split; [reflexivity|].
  split; [reflexivity|].
  change (json_field "body"
            (response_fields
               (fetched_response 200 (trim raw)
                  (js "admin-secret: " ++ FLAG c ++ [LF]))))
    with (Some (JStr (snippet (js "admin-secret: " ++ FLAG c ++ [LF])))).
  split; [reflexivity|].
  assert (jslength (js "admin-secret: " ++ FLAG c ++ [LF])
          = jslength (FLAG c) + 15) as Hlen.
  { unfold jslength. rewrite !length_app. simpl. lia. }
  split; intros H.
  - rewrite snippet_short by lia. reflexivity.
  - rewrite snippet_long by lia. do 2 f_equal.
    rewrite (app_assoc (js "admin-secret: ") (take 1986 (FLAG c)) truncation_marker).
    f_equal.
    rewrite take_app_ge by (vm_compute; lia).
    change (2000 - length (js "admin-secret: "))%nat with 1986%nat.
    f_equal. unfold jslength in H.
    rewrite take_app_le by lia. reflexivity.
Qed.

Lemma flag_comes_back_witness :
  exists r,
    outcome_of (world_of_internal_flag (load_constants ∅))
      (api_fetch latinToLowerCase
         (QString (js "http://2130706433:8000/internal/flag"))) = inl r
    /\ json_field "body" (response_fields r)
       = Some (JStr (js "admin-secret: FLAG{ssrf_decimal_wrap}" ++ [LF])).
Proof.
  destruct (flag_comes_back latinToLowerCase
              (world_of_internal_flag (load_constants ∅)) (load_constants ∅)
              (js "http://2130706433:8000/internal/flag"))
    as (r & Hr & _ & _ & _ & Hwhole & _).
  - reflexivity.
  - eexists. split; reflexivity.
  - exists r. split; [exact Hr|]. apply Hwhole. vm_compute. discriminate.
Defined.

(** ** More on the process constants (lines 28-30, 49, 110) *)

Lemma env_or_empty_is_unset {A} (env : gmap string jsstring) (name k : string)
    (found : jsstring -> A) (fallback : A) :
  env_or (<[k := []]> env) name found fallback
  = env_or (delete k env) name found fallback.
Proof.
  unfold env_or. destruct (decide (k = name)) as [-> | Hne].
  - rewrite lookup_insert_eq, lookup_delete_eq. reflexivity.
  - rewrite lookup_insert_ne, lookup_delete_ne by exact Hne. reflexivity.
Qed.

(** X11.  The constants, and with them the two listeners, depend on the
    environment through [FLAG] and [PORT] only: two environments that
    agree on these two give the same constants, so setting any other
    variable changes nothing.  A variable set to the empty string counts
    as unset.  Setting [PORT] never changes the secret, and setting
    [FLAG] never changes the public port. *)
Theorem constants_read_FLAG_and_PORT (env : gmap string jsstring) :
  (forall env' : gmap string jsstring,
     env' !! "FLAG" = env !! "FLAG" -> env' !! "PORT" = env !! "PORT" ->
     load_constants env' = load_constants env
     /\ listeners (load_constants env') = listeners (load_constants env)) /\
  (forall k v, k <> "FLAG"%string -> k <> "PORT"%string ->
     load_constants (<[k := v]> env) = load_constants env) /\
  (forall k, load_constants (<[k := []]> env) = load_constants (delete k env)) /\
  (forall v, FLAG (load_constants (<["PORT" := v]> env)) = FLAG (load_constants env)) /\
  (forall v, MAIN_PORT (load_constants (<["FLAG" := v]> env))
             = MAIN_PORT (load_constants env)).
Proof.
  assert (forall env' : gmap string jsstring,
            env' !! "FLAG" = env !! "FLAG" -> env' !! "PORT" = env !! "PORT" ->
            load_constants env' = load_constants env) as Hagree.
  { intros env' HF HP. unfold load_constants, env_or. rewrite HF, HP. reflexivity. }
  split; [|split; [|split; [|split]]].
  - intros env' HF HP. rewrite (Hagree env' HF HP). auto.
  - intros k v HkF HkP. apply Hagree; apply lookup_insert_ne; assumption.
  - intros k. unfold load_constants. rewrite !env_or_empty_is_unset. reflexivity.
  - intros v. unfold load_constants, env_or. simpl.
    rewrite lookup_insert_ne by discriminate. reflexivity.
  - intros v. unfold load_constants, env_or. simpl.
    rewrite lookup_insert_ne by discriminate. reflexivity.
Qed.

Lemma constants_read_FLAG_and_PORT_witness :
  load_constants (<["HOME" := js "/root"]> (<["FLAG" := js "FLAG{x}"]> ∅))
  = load_constants (<["FLAG" := js "FLAG{x}"]> ∅)
  /\ load_constants (<["PORT" := []]> ∅) = load_constants ∅.
Proof.
  destruct (constants_read_FLAG_and_PORT (<["FLAG" := js "FLAG{x}"]> ∅))
    as (_ & Hother & _).
  destruct (constants_read_FLAG_and_PORT ∅) as (_ & _ & Hempty & _).
  split.
  - apply Hother; discriminate.
  - rewrite Hempty. reflexivity.
Defined.
